(** * giscus: the Configuration component (src/components/Configuration.tsx)

    A shallow embedding of the component's state (its seven [useState]
    cells), of the [useEffect] that validates the debounced repository
    name, of the event handlers of the form, and of the [<pre>] block that
    renders the [<script>] snippet. *)

From Stdlib Require Import String Ascii List Bool Arith Lia.
Import ListNotations.
Local Open Scope string_scope.

(** ** JavaScript values used by the component *)

Module Js.

(** A string is truthy unless it is empty. *)
Definition truthy (s : string) : bool :=
  match s with
  | EmptyString => false
  | String _ _ => true
  end.

(** [a || b] on strings. *)
Definition or_else (a b : string) : string :=
  if truthy a then a else b.

(** [xs.length] used as a condition. *)
Definition nonempty {A : Type} (xs : list A) : bool :=
  match xs with
  | [] => false
  | _ :: _ => true
  end.

(** [xs.includes(x)] on an array of strings. *)
Definition includes (xs : list string) (x : string) : bool :=
  existsb (String.eqb x) xs.

(** [Number(b)] printed as a JSX child. *)
Definition number_of_bool (b : bool) : string :=
  if b then "1" else "0".

End Js.

(** ** Promises, as far as the component chains them *)

Module Promise.

(** The settled state of a promise. *)
Inductive t (A : Type) : Type :=
| Fulfilled (value : A)
| Rejected (reason : string).
Arguments Fulfilled {A} value.
Arguments Rejected {A} reason.

(** [p.then(f)]: a rejection passes through. *)
Definition then_ {A B : Type} (p : t A) (f : A -> B) : t B :=
  match p with
  | Fulfilled a => Fulfilled (f a)
  | Rejected r => Rejected r
  end.

(** [p.catch(g)]: a rejection is handled, a value passes through. *)
Definition catch_ {A : Type} (p : t A) (g : string -> A) : t A :=
  match p with
  | Fulfilled a => Fulfilled a
  | Rejected r => Fulfilled (g r)
  end.

End Promise.

(** ** Data model *)

(** [ICategory] of lib/types/adapter, with the three fields the component
    reads. *)
Record ICategory : Type := mkCategory {
  id : string;
  emoji : string;
  name : string
}.

(** What [getCategories] resolves to. *)
Record CategoriesResult : Type := mkResult {
  res_repositoryId : string;
  res_categories : list ICategory
}.

(** [DirectConfig], the props owned by the parent. *)
Record DirectConfig : Type := mkDirect {
  theme : string;
  reactionsEnabled : bool
}.

(** The state cells of [Configuration], with the value of
    [useDebounce(repository)] seen at the last render. *)
Record Config : Type := mkConfig {
  repository : string;
  repositoryId : string;
  categoryId : string;
  error : bool;
  categories : list ICategory;
  mapping : string;
  term : string;
  dRepository : string
}.

(** The [useState] initial values. *)
Definition initial : Config :=
  {| repository := "";
     repositoryId := "";
     categoryId := "";
     error := false;
     categories := [];
     mapping := "pathname";
     term := "";
     dRepository := "" |}.

(** *** State setters *)

Definition setRepository (v : string) (c : Config) : Config :=
  {| repository := v; repositoryId := repositoryId c;
     categoryId := categoryId c; error := error c;
     categories := categories c; mapping := mapping c; term := term c;
     dRepository := dRepository c |}.

Definition setRepositoryId (v : string) (c : Config) : Config :=
  {| repository := repository c; repositoryId := v;
     categoryId := categoryId c; error := error c;
     categories := categories c; mapping := mapping c; term := term c;
     dRepository := dRepository c |}.

Definition setCategoryId (v : string) (c : Config) : Config :=
  {| repository := repository c; repositoryId := repositoryId c;
     categoryId := v; error := error c;
     categories := categories c; mapping := mapping c; term := term c;
     dRepository := dRepository c |}.

Definition setError (v : bool) (c : Config) : Config :=
  {| repository := repository c; repositoryId := repositoryId c;
     categoryId := categoryId c; error := v;
     categories := categories c; mapping := mapping c; term := term c;
     dRepository := dRepository c |}.

Definition setCategories (v : list ICategory) (c : Config) : Config :=
  {| repository := repository c; repositoryId := repositoryId c;
     categoryId := categoryId c; error := error c;
     categories := v; mapping := mapping c; term := term c;
     dRepository := dRepository c |}.

Definition setMapping (v : string) (c : Config) : Config :=
  {| repository := repository c; repositoryId := repositoryId c;
     categoryId := categoryId c; error := error c;
     categories := categories c; mapping := v; term := term c;
     dRepository := dRepository c |}.

Definition setTerm (v : string) (c : Config) : Config :=
  {| repository := repository c; repositoryId := repositoryId c;
     categoryId := categoryId c; error := error c;
     categories := categories c; mapping := mapping c; term := v;
     dRepository := dRepository c |}.

(** A render that sees a new value of the debounced repository. *)
Definition setDRepository (v : string) (c : Config) : Config :=
  {| repository := repository c; repositoryId := repositoryId c;
     categoryId := categoryId c; error := error c;
     categories := categories c; mapping := mapping c; term := term c;
     dRepository := v |}.

(** ** The validation effect (lines 115-130) *)

(** The four synchronous resets at the head of the effect. *)
Definition effect_reset (c : Config) : Config :=
  setCategories [] (setCategoryId "" (setRepositoryId "" (setError false c))).

(** The [.then] handler. *)
Definition onFulfilled (r : CategoriesResult) : Config -> Config :=
  fun c => setCategories (res_categories r)
             (setRepositoryId (res_repositoryId r) c).

(** The [.catch] handler. *)
Definition onRejected (_ : string) : Config -> Config :=
  setError true.

(** [getCategories(d).then(...).catch(...)] once [getCategories(d)] has
    settled as [p]: the state update the chain performs, or the rejection
    it leaves unhandled. *)
Definition lookup_chain (p : Promise.t CategoriesResult)
  : Promise.t (Config -> Config) :=
  Promise.catch_ (Promise.then_ p onFulfilled) onRejected.


(** ** The validation display (lines 173-198)

    The three-way conditional under the repository input decides what the
    user is shown; it is the validator's state as the rest of the page
    sees it. *)
Inductive ValidationResult : Type :=
| Idle
| Pending
| Success (repositoryId : string) (categories : list ICategory)
| Error.

Definition validation (c : Config) : ValidationResult :=
  if error c
     || (Js.truthy (repositoryId c) && negb (Js.nonempty (categories c)))
  then Error
  else if Js.truthy (repositoryId c) && Js.nonempty (categories c)
  then Success (repositoryId c) (categories c)
  else if negb (error c) && negb (Js.truthy (repositoryId c))
          && Js.truthy (dRepository c)
  then Pending
  else Idle.

(** ** Event handlers of the form *)

(** [onChange] of the repository input (line 167). *)
Definition onRepositoryChange (v : string) : Config -> Config :=
  setRepository v.

(** [onChange] of the category select (line 208). *)
Definition onCategoryChange (v : string) : Config -> Config :=
  setCategoryId v.

(** [onChange] of a mapping radio button (lines 235-238). *)
Definition onMappingChange (v : string) (c : Config) : Config :=
  setMapping v (setTerm "" c).

(** [onChange] of the term input (line 248). *)
Definition onTermChange (v : string) : Config -> Config :=
  setTerm v.

(** The [value]s of [mappingOptions] (lines 9-75). *)
Definition mappingOptions : list string :=
  ["pathname"; "url"; "title"; "og:title"; "specific"; "number"].

(** The mappings under which a term is asked for (lines 244 and 328). *)
Definition termMappings : list string := ["specific"; "number"].

(** The selectable [<option>]s of the category select (lines 216-220); the
    leading empty option is [disabled]. *)
Definition categoryOptions (c : Config) : list string :=
  map id (categories c).

(** The select itself is [disabled] while there is no category. *)
Definition categorySelectEnabled (c : Config) : bool :=
  Js.nonempty (categories c).

(** The term input is rendered only under a term mapping (line 244). *)
Definition termInputRendered (c : Config) : bool :=
  Js.includes termMappings (mapping c).

(** ** The component with its outstanding lookups *)

(** The component's state together with the [getCategories] calls that
    have been issued and have not settled yet (oldest first), the log of
    every call issued, and the rejections no handler took. *)
Record World : Type := mkWorld {
  config : Config;
  inflight : list string;
  issued : list string;
  unhandled : list string
}.

Definition mounted : World :=
  {| config := initial; inflight := []; issued := []; unhandled := [] |}.

(** The events the component reacts to.  [useDebounce] is imported from
    lib/hooks; the value it returns is taken as given, and [Settled d] is
    a render in which it returns [d].  [getCategories] is a remote
    service; [Response i p] is the [i]-th outstanding call settling as
    [p].  The other four are the [onChange] events of the form. *)
Inductive Event : Type :=
| Input (v : string)
| Settled (d : string)
| Response (i : nat) (p : Promise.t CategoriesResult)
| PickCategory (v : string)
| PickMapping (v : string)
| TypeTerm (v : string).

Definition with_config (f : Config -> Config) (w : World) : World :=
  {| config := f (config w); inflight := inflight w;
     issued := issued w; unhandled := unhandled w |}.

(** The body of the effect, run for the debounced value [d]: the resets,
    then one [getCategories] call when [d] is truthy. *)
Definition run_effect (d : string) (w : World) : World :=
  let c := effect_reset (config w) in
  if Js.truthy d
  then {| config := c; inflight := inflight w ++ [d];
          issued := issued w ++ [d]; unhandled := unhandled w |}
  else {| config := c; inflight := inflight w;
          issued := issued w; unhandled := unhandled w |}.

(** The dependency array [[dRepository]]: the effect runs only when the
    debounced value differs from the one of the previous render. *)
Definition settle (d : string) (w : World) : World :=
  if String.eqb d (dRepository (config w)) then w
  else run_effect d (with_config (setDRepository d) w).

(** Removes the [i]-th element. *)
Fixpoint remove_nth {A : Type} (i : nat) (xs : list A) : list A :=
  match xs, i with
  | [], _ => []
  | _ :: xs', O => xs'
  | x :: xs', S i' => x :: remove_nth i' xs'
  end.

(** The [i]-th outstanding call settles as [p], and its handler chain
    runs against the state of that moment. *)
Definition respond (i : nat) (p : Promise.t CategoriesResult) (w : World)
  : World :=
  match nth_error (inflight w) i with
  | None => w
  | Some _ =>
      match lookup_chain p with
      | Promise.Fulfilled update =>
          {| config := update (config w);
             inflight := remove_nth i (inflight w);
             issued := issued w; unhandled := unhandled w |}
      | Promise.Rejected reason =>
          {| config := config w;
             inflight := remove_nth i (inflight w);
             issued := issued w; unhandled := unhandled w ++ [reason] |}
      end
  end.

(** One event of the page.  A control that is disabled or not rendered
    produces no event, so the state stays as it is. *)
Definition step (w : World) (e : Event) : World :=
  match e with
  | Input v => with_config (onRepositoryChange v) w
  | Settled d => settle d w
  | Response i p => respond i p w
  | PickCategory v =>
      if categorySelectEnabled (config w)
         && Js.includes (categoryOptions (config w)) v
      then with_config (onCategoryChange v) w else w
  | PickMapping v =>
      if Js.includes mappingOptions v
      then with_config (onMappingChange v) w else w
  | TypeTerm v =>
      if termInputRendered (config w)
      then with_config (onTermChange v) w else w
  end.

Definition run (w : World) (es : list Event) : World :=
  fold_left step es w.

(** ** The rendered snippet (lines 311-350) *)

(** The highlighting classes of the [<span>]s. *)
Inductive Class : Type := pl_kos | pl_ent | pl_c1 | pl_s.

(** A child of the [<pre>] element: a classed span or bare text. *)
Inductive Node : Type :=
| Span (cls : Class) (text : string)
| Text (text : string).

(** The double quote and the line feed. *)
Definition dquote : string := String (ascii_of_nat 34) EmptyString.
Definition newline : string := String (ascii_of_nat 10) EmptyString.

(** The text after an attribute name: the equals sign and a double
    quote. *)
Definition opens : string := "=" ++ dquote.

(** The text after an attribute value: a double quote, a line feed and
    eight spaces. *)
Definition closes : string := dquote ++ newline ++ "        ".

(** One attribute with its value, as the four children the source writes
    for it. *)
Definition attribute (name value : string) : list Node :=
  [Span pl_c1 name; Text opens; Span pl_s value; Text closes].

Definition repoPlaceholder : string := "[ENTER REPO HERE]".
Definition repoIdPlaceholder : string := "[ENTER REPO ID HERE]".
Definition categoryIdPlaceholder : string := "[ENTER CATEGORY ID HERE]".
Definition termPlaceholder : string := "[ENTER TERM HERE]".

(** The children of the [<pre>] element, in order. *)
Definition snippet (c : Config) (d : DirectConfig) : list Node :=
  [Span pl_kos "<"; Span pl_ent "script"; Text " "]
  ++ attribute "src" "https://giscus.app/client.js"
  ++ attribute "data-repo" (Js.or_else (repository c) repoPlaceholder)
  ++ attribute "data-repo-id" (Js.or_else (repositoryId c) repoIdPlaceholder)
  ++ attribute "data-category-id"
       (Js.or_else (categoryId c) categoryIdPlaceholder)
  ++ attribute "data-mapping" (mapping c)
  ++ (if Js.includes termMappings (mapping c)
      then attribute "data-term" (Js.or_else (term c) termPlaceholder)
      else [])
  ++ attribute "data-reactions-enabled"
       (Js.number_of_bool (reactionsEnabled d))
  ++ attribute "data-theme" (theme d)
  ++ attribute "crossorigin" "anonymous"
  ++ [Span pl_c1 "async"; Span pl_kos ">"; Text newline;
      Span pl_kos "</"; Span pl_ent "script"; Span pl_kos ">"].

Definition node_text (n : Node) : string :=
  match n with
  | Span _ t => t
  | Text t => t
  end.

(** The text content of the block, which is what the copy button takes. *)
Definition text_content (ns : list Node) : string :=
  fold_right (fun n acc => node_text n ++ acc) "" ns.

(** The attributes a reader of the block sees: each name span that is
    followed by the opening text and a value span, with that value. *)
Fixpoint attributes (ns : list Node) : list (string * string) :=
  match ns with
  | [] => []
  | Span pl_c1 n :: rest =>
      match rest with
      | Text _ :: Span pl_s v :: _ => (n, v) :: attributes rest
      | _ => attributes rest
      end
  | _ :: rest => attributes rest
  end.

(** The attributes whose value comes from a field that may be unset. *)
Definition resolvedAttributes : list string :=
  ["data-repo"; "data-repo-id"; "data-category-id"; "data-term"].

(** ** Runs in which lookups do not overlap *)

(** Does event [e] make the effect call [getCategories]? *)
Definition issues_lookup (w : World) (e : Event) : bool :=
  match e with
  | Settled d => negb (String.eqb d (dRepository (config w))) && Js.truthy d
  | _ => false
  end.

(** A run is serial when every lookup is issued with no other lookup
    outstanding. *)
Fixpoint serial (w : World) (es : list Event) : bool :=
  match es with
  | [] => true
  | e :: es' =>
      (negb (issues_lookup w e) || negb (Js.nonempty (inflight w)))
      && serial (step w e) es'
  end.

(** The selected category is unset or one of the stored categories. *)
Definition category_consistent (c : Config) : Prop :=
  categoryId c = "" \/ In (categoryId c) (categoryOptions c).

(** What serial runs preserve: the selection is consistent, at most one
    lookup is outstanding, and while one is, nothing is selected and no
    category is stored. *)
Definition serial_invariant (w : World) : Prop :=
  category_consistent (config w)
  /\ length (inflight w) <= 1
  /\ (inflight w <> [] ->
      categoryId (config w) = "" /\ categories (config w) = []).

(** ** The mapping radios and the term input (lines 226-258) *)

(** The term input rendered under a radio. *)
Record TermInput : Type := mkTermInput {
  input_value : string;
  input_type : string;
  input_placeholder : string
}.

(** One entry of the fieldset: the radio and, under it, the term input
    when there is one. *)
Record MappingRadio : Type := mkRadio {
  radio_value : string;
  radio_checked : bool;
  radio_term : option TermInput
}.

(** The fieldset: [mappingOptions.map(...)]. *)
Definition mappingRadios (c : Config) : list MappingRadio :=
  map (fun value =>
         {| radio_value := value;
            radio_checked := String.eqb (mapping c) value;
            radio_term :=
              if Js.includes termMappings (mapping c)
                 && String.eqb (mapping c) value
              then Some
                     {| input_value := term c;
                        input_type :=
                          if String.eqb (mapping c) "number"
                          then "number" else "text";
                        input_placeholder :=
                          if String.eqb (mapping c) "number"
                          then "Enter discussion number here"
                          else "Enter term here" |}
              else None |})
      mappingOptions.

(** The term inputs on the page. *)
Definition termInputs (c : Config) : list TermInput :=
  flat_map (fun r => match radio_term r with
                     | Some i => [i]
                     | None => []
                     end)
           (mappingRadios c).

(** ** The category select (lines 203-221) *)

Record SelectOption : Type := mkOption {
  option_value : string;
  option_label : string;
  option_disabled : bool;
  option_selected : bool
}.

Record CategorySelect : Type := mkSelect {
  select_disabled : bool;
  select_value : string;
  select_options : list SelectOption
}.

Definition categorySelect (c : Config) : CategorySelect :=
  {| select_disabled := negb (Js.nonempty (categories c));
     select_value := categoryId c;
     select_options :=
       {| option_value := "";
          option_label := if Js.nonempty (categories c)
                          then "Pick a category" else "No categories found";
          option_disabled := true;
          option_selected := negb (Js.truthy (categoryId c)) |}
       :: map (fun cat =>
                 {| option_value := id cat;
                    option_label := emoji cat ++ " " ++ name cat;
                    option_disabled := false;
                    option_selected := false |})
              (categories c) |}.

(** ** The snippet as text *)

(** One attribute as it reads in the block. *)
Definition attribute_text (a : string * string) : string :=
  fst a ++ opens ++ snd a ++ closes.

(** A script tag with the given attributes, laid out as the block lays
    it out. *)
Definition script_text (attrs : list (string * string)) : string :=
  "<script " ++ fold_right (fun a acc => attribute_text a ++ acc) "" attrs
  ++ "async>" ++ newline ++ "</script>".

(** ** Invariants of the runs from the mounted component *)

(** The lookups issued so far are for non-empty names, the latest is for
    the debounced name when that is non-empty, and every outstanding
    lookup is among the issued ones. *)
Definition lookup_invariant (w : World) : Prop :=
  Forall (fun d => d <> "") (issued w)
  /\ (dRepository (config w) <> "" ->
      last (issued w) "" = dRepository (config w))
  /\ incl (inflight w) (issued w)
  /\ length (inflight w) <= length (issued w).

(** The mapping is one of the options, and the term is empty unless the
    mapping asks for one. *)
Definition mapping_invariant (c : Config) : Prop :=
  In (mapping c) mappingOptions
  /\ (Js.includes termMappings (mapping c) = false -> term c = "").

(** On serial runs: while a lookup is outstanding it is the only one, it
    is the one for the debounced name unless that name has been emptied
    since, and the validator's cells are in their reset state. *)
Definition pending_invariant (w : World) : Prop :=
  inflight w = []
  \/ (length (inflight w) = 1
      /\ (dRepository (config w) = ""
          \/ inflight w = [dRepository (config w)])
      /\ error (config w) = false
      /\ repositoryId (config w) = ""
      /\ categoryId (config w) = ""
      /\ categories (config w) = []).

(** The settled names along a run that make the effect call
    [getCategories], given the debounced name before the run. *)
Fixpoint lookups (prev : string) (es : list Event) : list string :=
  match es with
  | [] => []
  | Settled d :: es' =>
      if String.eqb d prev then lookups prev es'
      else if Js.truthy d then d :: lookups d es' else lookups d es'
  | _ :: es' => lookups prev es'
  end.

(** ** Sample data *)

(** Sample data for the concrete runs of the properties. *)
Definition catGeneral : ICategory := mkCategory "A_1" "#" "General".
Definition catIdeas : ICategory := mkCategory "B_1" "!" "Ideas".
Definition resultA : CategoriesResult := mkResult "R_A" [catGeneral].
Definition resultB : CategoriesResult := mkResult "R_B" [catIdeas].

(** ** The debouncer *)

Module Debouncer.
Section Model.

Variable V : Type.

(** The quiescence interval, in ticks of a discrete clock. *)
Variable interval : nat.

(** Modelled from the spec: [useDebounce] of lib/hooks is imported by the
    component and is not among the sources.  The spec's contract (4.1):
    a settled value is emitted only after no update has arrived for the
    full interval, and every update before that resets the wait.  The
    state is the last settled value, the one scheduled emission with its
    due time, and the emissions so far with their times. *)
Record t : Type := mk {
  settled : V;
  timer : option (nat * V);
  emitted : list (nat * V)
}.

Definition start (v0 : V) : t :=
  {| settled := v0; timer := None; emitted := [] |}.

(** Modelled from the spec: the clock reaches [now]; a scheduled emission
    that is due happens, at its due time. *)
Definition advance (now : nat) (s : t) : t :=
  match timer s with
  | Some (due, v) =>
      if Nat.leb due now
      then {| settled := v; timer := None;
              emitted := emitted s ++ [(due, v)] |}
      else s
  | None => s
  end.

(** Modelled from the spec: an update at time [now] replaces whatever was
    scheduled, and the wait starts again from [now]. *)
Definition update (now : nat) (v : V) (s : t) : t :=
  let s' := advance now s in
  {| settled := settled s'; timer := Some ((now + interval)%nat, v);
     emitted := emitted s' |}.

(** Modelled from the spec: on cancellation the pending emission is
    discarded. *)
Definition cancel (s : t) : t :=
  {| settled := settled s; timer := None; emitted := emitted s |}.

(** A stream of timed updates, fed in order. *)
Definition feed (s : t) (us : list (nat * V)) : t :=
  fold_left (fun acc u => update (fst u) (snd u) acc) us s.

(** Everything emitted up to time [horizon]. *)
Definition emissions (v0 : V) (us : list (nat * V)) (horizon : nat)
  : list (nat * V) :=
  emitted (advance horizon (feed (start v0) us)).

(** Updates in time order, each less than one interval after the one
    before it. *)
Fixpoint burst (us : list (nat * V)) : Prop :=
  match us with
  | [] => True
  | u1 :: rest =>
      match rest with
      | [] => True
      | u2 :: _ => (fst u1 <= fst u2 /\ fst u2 < fst u1 + interval)%nat
      end /\ burst rest
  end.

End Model.
End Debouncer.

Arguments Debouncer.settled {V} _.
Arguments Debouncer.timer {V} _.
Arguments Debouncer.emitted {V} _.
Arguments Debouncer.start {V} _.
Arguments Debouncer.advance {V} _ _.
Arguments Debouncer.update {V} _ _ _ _.
Arguments Debouncer.cancel {V} _.
Arguments Debouncer.feed {V} _ _ _.
Arguments Debouncer.emissions {V} _ _ _ _.
Arguments Debouncer.burst {V} _ _.

(** * Tactics *)

(** Case analysis on the condition of the first conditional of the goal. *)
Ltac case_if :=
  match goal with
  | |- context [if ?b then _ else _] => destruct b eqn:?
  end.

(** * Properties *)

(** ** Truthiness *)

Lemma truthy_true (s : string) : Js.truthy s = true <-> s <> "".
Proof. destruct s; simpl; split; congruence. Qed.

Lemma or_else_filled (a b : string) : b <> "" -> Js.or_else a b <> "".
Proof.
  intros Hb. unfold Js.or_else.
  destruct (Js.truthy a) eqn:E; [now apply truthy_true | exact Hb].
Qed.

Lemma includes_In (xs : list string) (x : string) :
  Js.includes xs x = true <-> In x xs.
Proof.
  unfold Js.includes. rewrite existsb_exists. split.
  - intros [y [Hy E]]. apply String.eqb_eq in E. now subst.
  - intros H. exists x. split; [exact H | apply String.eqb_refl].
Qed.

Lemma eqb_differs (a b : string) : a <> b -> String.eqb a b = false.
Proof. intros H. now apply String.eqb_neq. Qed.

(** ** Outstanding lookups *)

Lemma nth_error_last_issued {A : Type} (xs ys : list A) (x : A) :
  nth_error (xs ++ x :: ys) (length xs) = Some x.
Proof. induction xs as [|h xs IH]; simpl; [reflexivity | exact IH]. Qed.

Lemma remove_nth_middle {A : Type} (xs ys : list A) (x : A) :
  remove_nth (length xs) (xs ++ x :: ys) = (xs ++ ys)%list.
Proof.
  induction xs as [|h xs IH]; simpl; [reflexivity | now rewrite IH].
Qed.

(** ** The effect *)

Lemma settle_changed (d : string) (w : World) :
  d <> dRepository (config w) ->
  settle d w = run_effect d (with_config (setDRepository d) w).
Proof. intros H. unfold settle. now rewrite (eqb_differs _ _ H). Qed.

Lemma run_effect_truthy (d : string) (w : World) :
  d <> "" ->
  run_effect d w =
  {| config := effect_reset (config w); inflight := inflight w ++ [d];
     issued := issued w ++ [d]; unhandled := unhandled w |}.
Proof.
  intros H. unfold run_effect. apply truthy_true in H. now rewrite H.
Qed.

(** The handler chain always ends fulfilled: the [.catch] is last. *)
Lemma lookup_chain_handled (p : Promise.t CategoriesResult) :
  lookup_chain p =
  Promise.Fulfilled
    match p with
    | Promise.Fulfilled r => onFulfilled r
    | Promise.Rejected reason => onRejected reason
    end.
Proof. destruct p; reflexivity. Qed.

Lemma respond_outstanding (i : nat) (p : Promise.t CategoriesResult)
      (w : World) (d : string) :
  nth_error (inflight w) i = Some d ->
  respond i p w =
  {| config := match p with
               | Promise.Fulfilled r => onFulfilled r (config w)
               | Promise.Rejected reason => onRejected reason (config w)
               end;
     inflight := remove_nth i (inflight w);
     issued := issued w; unhandled := unhandled w |}.
Proof.
  intros H. unfold respond. rewrite H, lookup_chain_handled.
  destruct p; reflexivity.
Qed.

Lemma step_unhandled (w : World) (e : Event) :
  unhandled (step w e) = unhandled w.
Proof.
  destruct e as [v|d|i p|v|v|v]; simpl.
  - reflexivity.
  - unfold settle, run_effect.
    destruct (String.eqb d (dRepository (config w))); [reflexivity|].
    destruct (Js.truthy d); reflexivity.
  - unfold respond. destruct (nth_error (inflight w) i); [|reflexivity].
    rewrite lookup_chain_handled. reflexivity.
  - case_if; reflexivity.
  - case_if; reflexivity.
  - case_if; reflexivity.
Qed.

Lemma run_unhandled (es : list Event) (w : World) :
  unhandled (run w es) = unhandled w.
Proof.
  unfold run. revert w.
  induction es as [|e es IH]; intros w; simpl; [reflexivity|].
  now rewrite IH, step_unhandled.
Qed.

Lemma step_issued (w : World) (e : Event) :
  issued (step w e) = issued w
  \/ exists d, e = Settled d /\ d <> "" /\ d <> dRepository (config w)
               /\ issued (step w e) = (issued w ++ [d])%list.
Proof.
  destruct e as [v|d|i p|v|v|v]; simpl.
  - now left.
  - unfold settle, run_effect.
    destruct (String.eqb_spec d (dRepository (config w))) as [E|N];
      [now left|].
    destruct (Js.truthy d) eqn:T; [|now left].
    right. exists d. apply truthy_true in T. now repeat split.
  - left. unfold respond. destruct (nth_error (inflight w) i); [|reflexivity].
    rewrite lookup_chain_handled. reflexivity.
  - left. case_if; reflexivity.
  - left. case_if; reflexivity.
  - left. case_if; reflexivity.
Qed.

(** ** The repository validator *)

(** C2.  When the settled repository name changes to a non-empty value,
    so that a new lookup starts, the effect clears repositoryId,
    categoryId and categories at once: in the state right after the
    change the three are empty while the new lookup is still outstanding
    (its result has not been applied), and the display is Pending. *)
Theorem pending_clears_eagerly (w : World) (d : string) :
  d <> "" ->
  d <> dRepository (config w) ->
  let w' := step w (Settled d) in
  repositoryId (config w') = ""
  /\ categoryId (config w') = ""
  /\ categories (config w') = []
  /\ dRepository (config w') = d
  /\ inflight w' = (inflight w ++ [d])%list
  /\ issued w' = (issued w ++ [d])%list
  /\ validation (config w') = Pending.
Proof.
  intros Hd Hnew. simpl.
  rewrite (settle_changed _ _ Hnew), (run_effect_truthy _ _ Hd).
  unfold validation. simpl. apply truthy_true in Hd. rewrite Hd.
  repeat split; reflexivity.
Qed.

Lemma pending_clears_eagerly_witness :
  let w := run mounted [Input "a/a"; Settled "a/a";
                        Response 0 (Promise.Fulfilled resultA);
                        PickCategory "A_1"; Input "b/b"] in
  let w' := step w (Settled "b/b") in
  categoryId (config w) = "A_1"
  /\ repositoryId (config w') = ""
  /\ categoryId (config w') = ""
  /\ categories (config w') = []
  /\ dRepository (config w') = "b/b"
  /\ inflight w' = (inflight w ++ ["b/b"])%list
  /\ issued w' = (issued w ++ ["b/b"])%list
  /\ validation (config w') = Pending.
Proof.
  split; [reflexivity|].
  apply (pending_clears_eagerly
           (run mounted [Input "a/a"; Settled "a/a";
                         Response 0 (Promise.Fulfilled resultA);
                         PickCategory "A_1"; Input "b/b"]) "b/b").
  - discriminate.
  - simpl. discriminate.
Defined.

(** C10.  When the settled repository name becomes the empty string, the
    effect issues no lookup, and it leaves error = false,
    repositoryId = "", categoryId = "" and categories = []: the display is
    Idle. *)
Theorem empty_identifier_resets (w : World) :
  dRepository (config w) <> "" ->
  let w' := step w (Settled "") in
  issued w' = issued w
  /\ inflight w' = inflight w
  /\ error (config w') = false
  /\ repositoryId (config w') = ""
  /\ categoryId (config w') = ""
  /\ categories (config w') = []
  /\ dRepository (config w') = ""
  /\ validation (config w') = Idle.
Proof.
  intros H. simpl.
  rewrite settle_changed by congruence.
  repeat split; reflexivity.
Qed.

Lemma empty_identifier_resets_witness :
  let w := run mounted [Input "a/a"; Settled "a/a";
                        Response 0 (Promise.Rejected "not installed");
                        Input ""] in
  let w' := step w (Settled "") in
  validation (config w) = Error
  /\ issued w' = issued w
  /\ inflight w' = inflight w
  /\ error (config w') = false
  /\ repositoryId (config w') = ""
  /\ categoryId (config w') = ""
  /\ categories (config w') = []
  /\ dRepository (config w') = ""
  /\ validation (config w') = Idle.
Proof.
  split; [reflexivity|].
  apply (empty_identifier_resets
           (run mounted [Input "a/a"; Settled "a/a";
                         Response 0 (Promise.Rejected "not installed");
                         Input ""])).
  simpl. discriminate.
Defined.

(** ** The mapping selector *)

(** C5.  The mapping handler sets the term to the empty string whatever
    mapping is chosen, the current one included; and typing 42 under the
    number mapping, then choosing pathname, then number again, leaves the
    term empty. *)
Theorem mapping_change_clears_term :
  (forall (c : Config) (v : string),
      term (onMappingChange v c) = "" /\ mapping (onMappingChange v c) = v)
  /\ (forall c : Config, term (onMappingChange (mapping c) c) = "")
  /\ (let w := run mounted [PickMapping "number"; TypeTerm "42"] in
      term (config w) = "42"
      /\ mapping (config w) = "number"
      /\ term (config (run w [PickMapping "pathname"; PickMapping "number"]))
         = ""
      /\ mapping (config (run w [PickMapping "pathname";
                                 PickMapping "number"])) = "number").
Proof.
  split; [|split].
  - intros c v. split; reflexivity.
  - intros c. reflexivity.
  - repeat split; reflexivity.
Qed.

(** C4, as the spec has it, fails for a lookup that fulfils with an empty
    repository id and no category: the display keeps the spinner
    (Pending) and does not show the error. *)
Lemma empty_result_without_id_stays_pending :
  let w := run mounted [Input "o/r"; Settled "o/r";
                        Response 0 (Promise.Fulfilled (mkResult "" []))] in
  inflight w = []
  /\ validation (config w) = Pending
  /\ validation (config w) <> Error.
Proof. split; [reflexivity|]. split; [reflexivity | discriminate]. Qed.

(** C4, amended.  A lookup that fulfils with a non-empty repository id
    and an empty category list leaves the display in Error, the same
    display as a rejected lookup; and with any repository id an empty
    category list never gives the Success display. *)
Theorem zero_categories_is_error
        (w : World) (i : nat) (d : string) (r : CategoriesResult) :
  nth_error (inflight w) i = Some d ->
  res_categories r = [] ->
  res_repositoryId r <> "" ->
  let w' := step w (Response i (Promise.Fulfilled r)) in
  validation (config w') = Error
  /\ (forall reason,
         validation (config (step w (Response i (Promise.Rejected reason))))
         = validation (config w'))
  /\ repositoryId (config w') = res_repositoryId r
  /\ categories (config w') = []
  /\ (forall rid' rid cs,
         validation
           (config (step w (Response i (Promise.Fulfilled (mkResult rid' [])))))
         <> Success rid cs).
Proof.
  intros Hi Hc Hr. simpl.
  rewrite (respond_outstanding _ _ _ _ Hi). simpl.
  assert (E : validation (onFulfilled r (config w)) = Error).
  { unfold validation. simpl. rewrite Hc. apply truthy_true in Hr.
    rewrite Hr. simpl. now rewrite orb_true_r. }
  split; [exact E|]. split; [|split; [|split]].
  - intros reason. rewrite (respond_outstanding _ _ _ _ Hi). simpl.
    rewrite E. reflexivity.
  - reflexivity.
  - exact Hc.
  - intros rid' rid cs. rewrite (respond_outstanding _ _ _ _ Hi).
    unfold validation. simpl.
    destruct (error (config w)), (Js.truthy rid'),
      (Js.truthy (dRepository (config w))); simpl; discriminate.
Qed.

Lemma zero_categories_is_error_witness :
  let w := run mounted [Input "o/r"; Settled "o/r"] in
  let w' := step w (Response 0 (Promise.Fulfilled (mkResult "R_1" []))) in
  validation (config w) = Pending
  /\ validation (config w') = Error
  /\ (forall reason,
         validation (config (step w (Response 0 (Promise.Rejected reason))))
         = validation (config w'))
  /\ repositoryId (config w') = "R_1"
  /\ categories (config w') = []
  /\ (forall rid' rid cs,
         validation
           (config (step w (Response 0 (Promise.Fulfilled (mkResult rid' [])))))
         <> Success rid cs).
Proof.
  split; [reflexivity|].
  apply (zero_categories_is_error
           (run mounted [Input "o/r"; Settled "o/r"]) 0 "o/r"
           (mkResult "R_1" []));
    [reflexivity | reflexivity | simpl; discriminate].
Defined.

(** C8.  A rejected lookup is taken by the catch handler of the chain:
    the error flag is set and the display is Error, whatever the state
    was; no rejection is ever left unhandled, on any run; and a rejection
    issues no new lookup: the only event that issues one is a new,
    non-empty settled repository name. *)
Theorem lookup_failure_contained
        (w : World) (i : nat) (d reason : string) :
  nth_error (inflight w) i = Some d ->
  let w' := step w (Response i (Promise.Rejected reason)) in
  error (config w') = true
  /\ validation (config w') = Error
  /\ unhandled w' = unhandled w
  /\ issued w' = issued w
  /\ inflight w' = remove_nth i (inflight w)
  /\ (forall p, exists update, lookup_chain p = Promise.Fulfilled update)
  /\ (forall es, unhandled (run mounted es) = [])
  /\ (forall w0 e,
         issued (step w0 e) = issued w0
         \/ exists d', e = Settled d' /\ d' <> ""
                       /\ d' <> dRepository (config w0)
                       /\ issued (step w0 e) = (issued w0 ++ [d'])%list).
Proof.
  intros Hi. simpl. rewrite (respond_outstanding _ _ _ _ Hi). simpl.
  repeat split.
  - intros p. rewrite lookup_chain_handled. eexists. reflexivity.
  - intros es. now rewrite run_unhandled.
  - intros w0 e. apply step_issued.
Qed.

Lemma lookup_failure_contained_witness :
  let w := run mounted [Input "o/r"; Settled "o/r"] in
  let w' := step w (Response 0 (Promise.Rejected "network")) in
  inflight w = ["o/r"]
  /\ error (config w') = true
  /\ validation (config w') = Error
  /\ unhandled w' = unhandled w
  /\ issued w' = issued w
  /\ inflight w' = [].
Proof.
  split; [reflexivity|].
  pose proof (lookup_failure_contained
                (run mounted [Input "o/r"; Settled "o/r"]) 0 "o/r"
                "network" eq_refl) as H.
  simpl in H. simpl. intuition.
Defined.

(** ** Overlapping lookups *)

(** C1, as the spec has it, fails.  The lookup for a/a is issued, b/b is
    settled before it resolves, and then the result for a/a arrives: the
    lookup for b/b is the only one outstanding and no result for it has
    come, yet the state holds the repository id and the categories of
    a/a and the display is Success; with a rejection instead, the display
    is Error. *)
Lemma stale_result_overwrites :
  let before := run mounted [Input "a/a"; Settled "a/a";
                             Input "b/b"; Settled "b/b"] in
  let after := step before (Response 0 (Promise.Fulfilled resultA)) in
  let failed := step before (Response 0 (Promise.Rejected "not found")) in
  inflight before = ["a/a"; "b/b"]
  /\ validation (config before) = Pending
  /\ inflight after = ["b/b"]
  /\ dRepository (config after) = "b/b"
  /\ repositoryId (config after) = "R_A"
  /\ categories (config after) = [catGeneral]
  /\ validation (config after) = Success "R_A" [catGeneral]
  /\ validation (config after) <> validation (config before)
  /\ inflight failed = ["b/b"]
  /\ validation (config failed) = Error
  /\ validation (config failed) <> validation (config before).
Proof.
  repeat (split; [first [reflexivity | discriminate]|]). discriminate.
Qed.

(** C1, amended.  The handlers carry no check of the identifier they were
    issued for.  When the lookup for A is issued, B is settled before it
    resolves, and A's result then arrives, the result is applied: a
    fulfilment stores A's repository id and categories, a rejection sets
    the error flag, while B's lookup is still outstanding; the selected
    category stays cleared and the debounced name stays B.  When B's own
    fulfilment arrives afterwards, it replaces the repository id and the
    categories with B's. *)
Theorem stale_result_is_applied
        (w : World) (a b : string) (p : Promise.t CategoriesResult) :
  a <> "" -> b <> "" -> a <> dRepository (config w) -> b <> a ->
  let k := length (inflight w) in
  let w2 := run w [Settled a; Settled b] in
  let w3 := step w2 (Response k p) in
  inflight w2 = (inflight w ++ [a; b])%list
  /\ inflight w3 = (inflight w ++ [b])%list
  /\ dRepository (config w3) = b
  /\ categoryId (config w3) = ""
  /\ match p with
     | Promise.Fulfilled r =>
         repositoryId (config w3) = res_repositoryId r
         /\ categories (config w3) = res_categories r
         /\ error (config w3) = false
     | Promise.Rejected _ =>
         repositoryId (config w3) = ""
         /\ categories (config w3) = []
         /\ error (config w3) = true
     end
  /\ (forall rb : CategoriesResult,
         let w4 := step w3 (Response k (Promise.Fulfilled rb)) in
         repositoryId (config w4) = res_repositoryId rb
         /\ categories (config w4) = res_categories rb
         /\ inflight w4 = inflight w).
Proof.
  intros Ha Hb Hnew Hba k w2 w3.
  assert (E2 : w2 =
               {| config := effect_reset (setDRepository b (config w));
                  inflight := inflight w ++ [a; b];
                  issued := issued w ++ [a; b];
                  unhandled := unhandled w |}).
  { unfold w2, run. simpl.
    rewrite (settle_changed a w Hnew), (run_effect_truthy _ _ Ha).
    rewrite settle_changed by (simpl; exact Hba).
    rewrite (run_effect_truthy _ _ Hb). simpl.
    now rewrite <- !app_assoc. }
  assert (Hk : nth_error (inflight w2) k = Some a).
  { rewrite E2. simpl. apply nth_error_last_issued. }
  assert (E3 : w3 =
               {| config :=
                    match p with
                    | Promise.Fulfilled r => onFulfilled r (config w2)
                    | Promise.Rejected reason => onRejected reason (config w2)
                    end;
                  inflight := inflight w ++ [b];
                  issued := issued w2; unhandled := unhandled w2 |}).
  { unfold w3. simpl. rewrite (respond_outstanding _ _ _ _ Hk). f_equal.
    rewrite E2. simpl. apply remove_nth_middle. }
  assert (Hk' : nth_error (inflight w3) k = Some b).
  { rewrite E3. simpl. apply nth_error_last_issued. }
  split; [now rewrite E2|].
  split; [now rewrite E3|].
  split; [rewrite E3, E2; destruct p; reflexivity|].
  split; [rewrite E3, E2; destruct p; reflexivity|].
  split; [rewrite E3, E2; destruct p; repeat split; reflexivity|].
  intros rb w4. unfold w4. simpl.
  rewrite (respond_outstanding _ _ _ _ Hk'). simpl.
  split; [reflexivity|]. split; [reflexivity|].
  rewrite E3. simpl. unfold k.
  rewrite (remove_nth_middle (inflight w) [] b). apply app_nil_r.
Qed.

Lemma stale_result_is_applied_witness :
  let w2 := run mounted [Settled "a/a"; Settled "b/b"] in
  let w3 := step w2 (Response 0 (Promise.Fulfilled resultA)) in
  inflight w2 = ["a/a"; "b/b"]
  /\ inflight w3 = ["b/b"]
  /\ dRepository (config w3) = "b/b"
  /\ categoryId (config w3) = ""
  /\ (repositoryId (config w3) = "R_A"
      /\ categories (config w3) = [catGeneral]
      /\ error (config w3) = false)
  /\ (forall rb : CategoriesResult,
         let w4 := step w3 (Response 0 (Promise.Fulfilled rb)) in
         repositoryId (config w4) = res_repositoryId rb
         /\ categories (config w4) = res_categories rb
         /\ inflight w4 = []).
Proof.
  apply (stale_result_is_applied mounted "a/a" "b/b"
           (Promise.Fulfilled resultA)); simpl; discriminate.
Defined.

(** ** The selected category *)

Lemma serial_invariant_mounted : serial_invariant mounted.
Proof.
  repeat split; simpl; try lia; try (now left); now intros [].
Qed.

Lemma serial_invariant_step (w : World) (e : Event) :
  serial_invariant w ->
  (negb (issues_lookup w e) || negb (Js.nonempty (inflight w))) = true ->
  serial_invariant (step w e).
Proof.
  intros (Hc & Hlen & Hout) Hser.
  destruct e as [v|d|i p|v|v|v]; simpl.
  - (* Input *) exact (conj Hc (conj Hlen Hout)).
  - (* Settled *)
    unfold settle. simpl in Hser.
    destruct (String.eqb d (dRepository (config w)));
      [exact (conj Hc (conj Hlen Hout))|].
    unfold run_effect. simpl in Hser. destruct (Js.truthy d); simpl in *.
    + destruct (inflight w) as [|x xs] eqn:E; [|discriminate].
      repeat split; simpl; try lia. now left.
    + repeat split; simpl; try lia. now left.
  - (* Response *)
    unfold respond. destruct (nth_error (inflight w) i) as [x|] eqn:E;
      [|exact (conj Hc (conj Hlen Hout))].
    rewrite lookup_chain_handled.
    destruct (inflight w) as [|y [|z ys]] eqn:Ein; simpl in Hlen;
      [destruct i; discriminate| |lia].
    destruct i as [|i]; [|destruct i; discriminate].
    destruct Hout as [Hid Hcats]; [discriminate|].
    unfold serial_invariant. simpl.
    split; [|split; [lia | now intros []]].
    left. destruct p; simpl; exact Hid.
  - (* PickCategory *)
    case_if; [|exact (conj Hc (conj Hlen Hout))].
    apply andb_prop in Heqb as [Hen Hin].
    split; [|split]; simpl.
    + right. unfold category_consistent, categoryOptions in *. simpl.
      now apply includes_In.
    + exact Hlen.
    + intros Hne. destruct (Hout Hne) as [_ Hcats].
      unfold categorySelectEnabled in Hen. rewrite Hcats in Hen.
      discriminate.
  - (* PickMapping *)
    case_if; exact (conj Hc (conj Hlen Hout)).
  - (* TypeTerm *)
    case_if; exact (conj Hc (conj Hlen Hout)).
Qed.

Lemma serial_invariant_run (es : list Event) (w : World) :
  serial_invariant w -> serial w es = true -> serial_invariant (run w es).
Proof.
  unfold run. revert w.
  induction es as [|e es IH]; intros w Hinv Hser; simpl; [exact Hinv|].
  simpl in Hser. apply andb_prop in Hser as [Hnow Hrest].
  apply IH; [now apply serial_invariant_step | exact Hrest].
Qed.

(** C3, as the spec has it, fails.  Two lookups overlap; the first result
    fills the list, the user picks A_1 from it, and the second result
    replaces the list without touching the selection: A_1 is selected and
    is not the id of any stored category. *)
Lemma selection_outlives_its_list :
  let w := run mounted [Input "a/a"; Settled "a/a";
                        Input "b/b"; Settled "b/b";
                        Response 0 (Promise.Fulfilled resultA);
                        PickCategory "A_1";
                        Response 0 (Promise.Fulfilled resultB)] in
  categoryId (config w) = "A_1"
  /\ categories (config w) = [catIdeas]
  /\ ~ category_consistent (config w).
Proof.
  split; [reflexivity|]. split; [reflexivity|].
  intros [H | [H | []]]; discriminate.
Qed.

(** C3, amended.  The selected category id is cleared whenever the
    effect runs, that is when a lookup starts or the settled name becomes
    empty; the arrival of a result leaves it as it is.  On every state
    reached by a run in which no lookup is issued while another is
    outstanding, the selected category id is the empty string or the id
    of a stored category. *)
Theorem selection_consistent_on_serial_runs (es : list Event) :
  serial mounted es = true ->
  category_consistent (config (run mounted es))
  /\ (forall (w : World) (d : string),
         d <> dRepository (config w) ->
         categoryId (config (step w (Settled d))) = "")
  /\ (forall (w : World) (i : nat) (p : Promise.t CategoriesResult),
         categoryId (config (step w (Response i p)))
         = categoryId (config w)).
Proof.
  intros Hser. split; [|split].
  - now apply (serial_invariant_run es mounted serial_invariant_mounted).
  - intros w d Hd. simpl. rewrite (settle_changed _ _ Hd).
    unfold run_effect. destruct (Js.truthy d); reflexivity.
  - intros w i p. simpl. unfold respond.
    destruct (nth_error (inflight w) i); [|reflexivity].
    rewrite lookup_chain_handled. destruct p; reflexivity.
Qed.

Lemma selection_consistent_on_serial_runs_witness :
  let es := [Input "a/a"; Settled "a/a";
             Response 0 (Promise.Fulfilled resultA); PickCategory "A_1";
             Input "b/b"; Settled "b/b";
             Response 0 (Promise.Fulfilled resultB); PickCategory "B_1"] in
  serial mounted es = true
  /\ categoryId (config (run mounted es)) = "B_1"
  /\ category_consistent (config (run mounted es)).
Proof.
  split; [reflexivity|]. split; [reflexivity|].
  apply (selection_consistent_on_serial_runs
           [Input "a/a"; Settled "a/a";
            Response 0 (Promise.Fulfilled resultA); PickCategory "A_1";
            Input "b/b"; Settled "b/b";
            Response 0 (Promise.Fulfilled resultB); PickCategory "B_1"]).
  reflexivity.
Defined.

(** ** The snippet *)

Lemma term_mapping_cases (m : string) :
  Js.includes termMappings m = true <-> m = "specific" \/ m = "number".
Proof.
  rewrite includes_In. simpl. intuition.
Qed.

(** The attributes of the snippet, read off the nodes. *)
Lemma snippet_attributes (c : Config) (d : DirectConfig) :
  attributes (snippet c d) =
  ([("src", "https://giscus.app/client.js");
    ("data-repo", Js.or_else (repository c) repoPlaceholder);
    ("data-repo-id", Js.or_else (repositoryId c) repoIdPlaceholder);
    ("data-category-id", Js.or_else (categoryId c) categoryIdPlaceholder);
    ("data-mapping", mapping c)]
   ++ (if Js.includes termMappings (mapping c)
       then [("data-term", Js.or_else (term c) termPlaceholder)]
       else [])
   ++ [("data-reactions-enabled", Js.number_of_bool (reactionsEnabled d));
       ("data-theme", theme d);
       ("crossorigin", "anonymous")])%list.
Proof.
  unfold snippet. destruct (Js.includes termMappings (mapping c)); reflexivity.
Qed.

(** C6.  The snippet has a data-term attribute exactly when the mapping
    is specific or number: under those the name span is among the nodes
    and the attribute is among the attributes read off them, and under
    any other mapping neither is there. *)
Theorem term_line_iff_term_mapping (c : Config) (d : DirectConfig) :
  (In (Span pl_c1 "data-term") (snippet c d)
   <-> mapping c = "specific" \/ mapping c = "number")
  /\ (In "data-term" (map fst (attributes (snippet c d)))
      <-> mapping c = "specific" \/ mapping c = "number").
Proof.
  rewrite snippet_attributes. unfold snippet.
  rewrite <- (term_mapping_cases (mapping c)).
  destruct (Js.includes termMappings (mapping c)); simpl; split; split;
    intros H; try reflexivity.
  - repeat first [left; reflexivity | right].
  - repeat first [left; reflexivity | right].
  - exfalso. repeat (destruct H as [H|H]; [discriminate H|]). exact H.
  - discriminate H.
  - exfalso. repeat (destruct H as [H|H]; [discriminate H|]). exact H.
  - discriminate H.
Qed.

(** The scenario of the spec: octo/demo is validated, the category C_1
    is picked, the mapping stays pathname; the snippet has the repository,
    its id and the category, and no data-term. *)
Example end_to_end :
  let w := run mounted
             [Input "octo/demo"; Settled "octo/demo";
              Response 0 (Promise.Fulfilled
                            (mkResult "R_1" [mkCategory "C_1" "*" "General"]));
              PickCategory "C_1"] in
  validation (config w) = Success "R_1" [mkCategory "C_1" "*" "General"]
  /\ issued w = ["octo/demo"]
  /\ attributes (snippet (config w) (mkDirect "light" true)) =
     [("src", "https://giscus.app/client.js");
      ("data-repo", "octo/demo");
      ("data-repo-id", "R_1");
      ("data-category-id", "C_1");
      ("data-mapping", "pathname");
      ("data-reactions-enabled", "1");
      ("data-theme", "light");
      ("crossorigin", "anonymous")].
Proof. repeat split. Qed.

(** C7.  In the snippet the values of data-repo, data-repo-id,
    data-category-id and data-term are never the empty string: a field
    that is empty is rendered as its placeholder, the four placeholders
    are non-empty and pairwise different, and a field that is filled is
    rendered as it is. *)
Theorem unresolved_fields_render_placeholders
        (c : Config) (d : DirectConfig) :
  let attrs := attributes (snippet c d) in
  (forall n v, In (n, v) attrs -> In n resolvedAttributes -> v <> "")
  /\ (repository c = "" -> In ("data-repo", repoPlaceholder) attrs)
  /\ (repositoryId c = "" -> In ("data-repo-id", repoIdPlaceholder) attrs)
  /\ (categoryId c = "" ->
      In ("data-category-id", categoryIdPlaceholder) attrs)
  /\ (Js.includes termMappings (mapping c) = true -> term c = "" ->
      In ("data-term", termPlaceholder) attrs)
  /\ NoDup [""; repoPlaceholder; repoIdPlaceholder; categoryIdPlaceholder;
            termPlaceholder]
  /\ NoDup (map fst attrs).
Proof.
  intros attrs. unfold attrs. rewrite snippet_attributes.
  split; [|split; [|split; [|split; [|split; [|split]]]]].
  - intros n v Hin Hn.
    destruct (Js.includes termMappings (mapping c)); simpl in Hin, Hn;
      repeat (destruct Hin as [Hin|Hin];
              [injection Hin as <- <-;
               first [ apply or_else_filled; discriminate
                     | exfalso; intuition discriminate ]|]);
      contradiction.
  - intros E. rewrite E. simpl. auto.
  - intros E. rewrite E. simpl. auto.
  - intros E. rewrite E. simpl. auto.
  - intros M E. rewrite M, E. simpl. auto 10.
  - repeat constructor; simpl; intuition discriminate.
  - destruct (Js.includes termMappings (mapping c)); simpl;
      repeat constructor; simpl; intuition discriminate.
Qed.

Lemma unresolved_fields_render_placeholders_witness :
  let attrs :=
    attributes (snippet (setMapping "number" initial) (mkDirect "light" true))
  in
  In ("data-repo", repoPlaceholder) attrs
  /\ In ("data-repo-id", repoIdPlaceholder) attrs
  /\ In ("data-category-id", categoryIdPlaceholder) attrs
  /\ In ("data-term", termPlaceholder) attrs.
Proof.
  destruct (unresolved_fields_render_placeholders
              (setMapping "number" initial) (mkDirect "light" true))
    as (_ & H1 & H2 & H3 & H4 & _).
  split; [apply H1; reflexivity|].
  split; [apply H2; reflexivity|].
  split; [apply H3; reflexivity|].
  apply H4; reflexivity.
Defined.

(** ** The debouncer *)

Section DebouncerFacts.

Variable V : Type.
Variable interval : nat.

(** An update that comes before the scheduled emission is due replaces
    it, and nothing is emitted. *)
Lemma update_resets_wait (s : Debouncer.t V) (t0 : nat) (v0 : V) (t : nat) (v : V) :
  Debouncer.timer s = Some ((t0 + interval)%nat, v0) ->
  (t < t0 + interval)%nat ->
  Debouncer.update interval t v s =
  Debouncer.mk V (Debouncer.settled s) (Some ((t + interval)%nat, v))
               (Debouncer.emitted s).
Proof.
  intros Ht Hlt. unfold Debouncer.update, Debouncer.advance. rewrite Ht.
  destruct (Nat.leb_spec (t0 + interval) t) as [Hle|_]; [lia | reflexivity].
Qed.

Lemma burst_cons (u1 u2 : nat * V) (rest : list (nat * V)) :
  Debouncer.burst interval (u1 :: u2 :: rest)
  <-> (fst u1 <= fst u2 < fst u1 + interval)%nat
      /\ Debouncer.burst interval (u2 :: rest).
Proof. reflexivity. Qed.

(** Through a burst the scheduled emission follows the latest update and
    nothing is emitted. *)
Lemma feed_burst (us : list (nat * V)) :
  forall (s : Debouncer.t V) (t0 : nat) (v0 : V) (t : nat) (v : V),
    Debouncer.timer s = Some ((t0 + interval)%nat, v0) ->
    Debouncer.burst interval ((t0, v0) :: us ++ [(t, v)]) ->
    Debouncer.feed interval s (us ++ [(t, v)]) =
    Debouncer.mk V (Debouncer.settled s) (Some ((t + interval)%nat, v))
                 (Debouncer.emitted s).
Proof.
  induction us as [|[t1 v1] us IH]; intros s t0 v0 t v Ht Hb.
  - apply (burst_cons (t0, v0) (t, v) []) in Hb. destruct Hb as [[_ Hlt] _].
    now apply (update_resets_wait s t0 v0).
  - apply (burst_cons (t0, v0) (t1, v1) (us ++ [(t, v)])) in Hb.
    destruct Hb as [[_ Hlt] Hb]. simpl in Hlt.
    change (Debouncer.feed interval s (((t1, v1) :: us) ++ [(t, v)]))
      with (Debouncer.feed interval (Debouncer.update interval t1 v1 s)
              (us ++ [(t, v)])).
    rewrite (update_resets_wait s t0 v0 t1 v1 Ht Hlt).
    now rewrite (IH (Debouncer.mk V (Debouncer.settled s)
                       (Some ((t1 + interval)%nat, v1))
                       (Debouncer.emitted s)) t1 v1 t v eq_refl Hb).
Qed.

(** C9.  For every stream of updates in which each update comes less
    than one interval after the one before it, the debouncer emits
    nothing until one full interval has passed since the last update, and
    from then on it has emitted exactly one value, the last update's, at
    that moment; the settled value is the initial one before and the last
    update's after. *)
Theorem debounce_coalesces
        (v0 : V) (us : list (nat * V)) (t : nat) (v : V) (horizon : nat) :
  Debouncer.burst interval (us ++ [(t, v)]) ->
  Debouncer.emissions interval v0 (us ++ [(t, v)]) horizon
  = (if Nat.leb (t + interval) horizon then [((t + interval)%nat, v)] else [])
  /\ Debouncer.settled
       (Debouncer.advance horizon
          (Debouncer.feed interval (Debouncer.start v0) (us ++ [(t, v)])))
     = (if Nat.leb (t + interval) horizon then v else v0).
Proof.
  intros Hb. unfold Debouncer.emissions.
  assert (E : Debouncer.feed interval (Debouncer.start v0) (us ++ [(t, v)])
              = Debouncer.mk V v0 (Some ((t + interval)%nat, v)) []).
  { destruct us as [|[t1 v1] us]; [reflexivity|].
    change (Debouncer.feed interval (Debouncer.start v0)
              (((t1, v1) :: us) ++ [(t, v)]))
      with (Debouncer.feed interval
              (Debouncer.update interval t1 v1 (Debouncer.start v0))
              (us ++ [(t, v)])).
    now rewrite (feed_burst us
                   (Debouncer.update interval t1 v1 (Debouncer.start v0))
                   t1 v1 t v eq_refl Hb). }
  rewrite E. unfold Debouncer.advance. simpl.
  destruct (Nat.leb (t + interval) horizon); split; reflexivity.
Qed.

End DebouncerFacts.

Lemma debounce_coalesces_witness :
  Debouncer.emissions 500 "" [(0, "a"); (100, "ab"); (200, "abc")] 699 = []
  /\ Debouncer.emissions 500 "" [(0, "a"); (100, "ab"); (200, "abc")] 700
     = [(700, "abc")]
  /\ Debouncer.emissions 500 "" [(0, "a"); (100, "ab"); (200, "abc")] 5000
     = [(700, "abc")].
Proof.
  assert (B : Debouncer.burst 500 ([(0, "a"); (100, "ab")] ++ [(200, "abc")])).
  { simpl. lia. }
  split; [|split].
  - exact (proj1 (debounce_coalesces string 500 ""
                    [(0, "a"); (100, "ab")] 200 "abc" 699 B)).
  - exact (proj1 (debounce_coalesces string 500 ""
                    [(0, "a"); (100, "ab")] 200 "abc" 700 B)).
  - exact (proj1 (debounce_coalesces string 500 ""
                    [(0, "a"); (100, "ab")] 200 "abc" 5000 B)).
Defined.

(** * Further properties of the component *)

(** ** The display *)

(** X1.  The four displays partition the states: the error is shown when
    the error flag is set or an id came without categories; the success
    when there is no error, an id and at least one category, and it shows
    the stored id and list; otherwise there is no error and no id, and
    the spinner is shown exactly when the debounced name is non-empty. *)
Theorem display_cases (c : Config) :
  (validation c = Error
   <-> error c = true \/ (repositoryId c <> "" /\ categories c = []))
  /\ (validation c = Success (repositoryId c) (categories c)
      <-> error c = false /\ repositoryId c <> "" /\ categories c <> [])
  /\ (validation c = Pending
      <-> error c = false /\ repositoryId c = "" /\ dRepository c <> "")
  /\ (validation c = Idle
      <-> error c = false /\ repositoryId c = "" /\ dRepository c = "")
  /\ (forall rid cs,
         validation c = Success rid cs ->
         rid = repositoryId c /\ cs = categories c).
Proof.
  unfold validation.
  destruct (error c), (repositoryId c) as [|a r], (categories c) as [|x xs],
    (dRepository c) as [|b q]; simpl;
    repeat match goal with
           | |- _ /\ _ => split
           | |- _ <-> _ => split
           | |- forall _, _ => intro
           end;
    try discriminate; try congruence; try tauto;
    try (intuition (first [discriminate | congruence])).
Qed.

(** X2.  A fulfilment does not clear the error flag: when it arrives
    while the flag is set, the id and the categories are stored and the
    display is still the error. *)
Theorem fulfilment_keeps_error
        (w : World) (i : nat) (d : string) (r : CategoriesResult) :
  nth_error (inflight w) i = Some d ->
  error (config w) = true ->
  let w' := step w (Response i (Promise.Fulfilled r)) in
  error (config w') = true
  /\ validation (config w') = Error
  /\ repositoryId (config w') = res_repositoryId r
  /\ categories (config w') = res_categories r.
Proof.
  intros Hi He. simpl. rewrite (respond_outstanding _ _ _ _ Hi).
  unfold validation. simpl. rewrite He. repeat split.
Qed.

Lemma fulfilment_keeps_error_witness :
  let w := run mounted [Input "a/a"; Settled "a/a"; Input "b/b";
                        Settled "b/b";
                        Response 0 (Promise.Rejected "not found")] in
  let w' := step w (Response 0 (Promise.Fulfilled resultB)) in
  inflight w = ["b/b"]
  /\ error (config w') = true
  /\ validation (config w') = Error
  /\ repositoryId (config w') = "R_B"
  /\ categories (config w') = [catIdeas].
Proof.
  split; [reflexivity|].
  apply (fulfilment_keeps_error
           (run mounted [Input "a/a"; Settled "a/a"; Input "b/b";
                         Settled "b/b";
                         Response 0 (Promise.Rejected "not found")])
           0 "b/b" resultB); reflexivity.
Defined.

(** ** The lookups issued *)

Lemma step_dRepository (w : World) (e : Event) :
  dRepository (config (step w e)) =
  match e with
  | Settled d => d
  | _ => dRepository (config w)
  end.
Proof.
  destruct e as [v|d|i p|v|v|v]; simpl.
  - reflexivity.
  - unfold settle, run_effect.
    destruct (String.eqb_spec d (dRepository (config w))) as [E|N];
      [now subst|].
    destruct (Js.truthy d); reflexivity.
  - unfold respond. destruct (nth_error (inflight w) i); [|reflexivity].
    rewrite lookup_chain_handled. destruct p; reflexivity.
  - case_if; reflexivity.
  - case_if; reflexivity.
  - case_if; reflexivity.
Qed.

Lemma step_issued_lookups (w : World) (e : Event) :
  issued (step w e) = (issued w ++ lookups (dRepository (config w)) [e])%list.
Proof.
  destruct e as [v|d|i p|v|v|v]; simpl; try (now rewrite app_nil_r).
  - unfold settle, run_effect.
    destruct (String.eqb d (dRepository (config w)));
      [now rewrite app_nil_r|].
    destruct (Js.truthy d); simpl; [reflexivity | now rewrite app_nil_r].
  - unfold respond. destruct (nth_error (inflight w) i);
      [|now rewrite app_nil_r].
    rewrite lookup_chain_handled. simpl. now rewrite app_nil_r.
  - case_if; simpl; now rewrite app_nil_r.
  - case_if; simpl; now rewrite app_nil_r.
  - case_if; simpl; now rewrite app_nil_r.
Qed.

(** X3.  The lookups issued along a run are decided by the settled names
    alone: one lookup for each settled name that is non-empty and differs
    from the settled name before it, in that order.  Typing, responses
    and the other controls issue nothing. *)
Theorem issued_follow_settled_names (es : list Event) (w : World) :
  issued (run w es)
  = (issued w ++ lookups (dRepository (config w)) es)%list.
Proof.
  unfold run. revert w.
  induction es as [|e es IH]; intros w; simpl fold_left.
  - simpl. now rewrite app_nil_r.
  - rewrite IH, step_issued_lookups, step_dRepository, <- app_assoc.
    f_equal. destruct e as [v|d|i p|v|v|v]; simpl; try reflexivity.
    destruct (String.eqb_spec d (dRepository (config w))) as [E|N];
      [now subst|].
    destruct (Js.truthy d); reflexivity.
Qed.

Lemma truthy_false_empty (s : string) : Js.truthy s = false -> s = "".
Proof. destruct s; simpl; congruence. Qed.

Lemma remove_nth_incl {A : Type} (i : nat) (xs : list A) :
  incl (remove_nth i xs) xs.
Proof.
  revert i. induction xs as [|x xs IH]; intros i; simpl.
  - destruct i; apply incl_refl.
  - destruct i as [|i]; [apply incl_tl, incl_refl|].
    intros y [Hy|Hy]; [now left | right; now apply (IH i)].
Qed.

Lemma remove_nth_length {A : Type} (i : nat) (xs : list A) :
  length (remove_nth i xs) <= length xs.
Proof.
  revert i. induction xs as [|x xs IH]; intros i; simpl.
  - destruct i; simpl; lia.
  - destruct i as [|i]; simpl; [lia | specialize (IH i); lia].
Qed.

Lemma lookup_invariant_step (w : World) (e : Event) :
  lookup_invariant w -> lookup_invariant (step w e).
Proof.
  intros (Hne & Hlast & Hincl & Hlen).
  destruct e as [v|d|i p|v|v|v]; simpl.
  - exact (conj Hne (conj Hlast (conj Hincl Hlen))).
  - unfold settle.
    destruct (String.eqb d (dRepository (config w)));
      [exact (conj Hne (conj Hlast (conj Hincl Hlen)))|].
    unfold run_effect. destruct (Js.truthy d) eqn:T.
    + apply truthy_true in T. unfold lookup_invariant. simpl.
      split; [|split; [|split]].
      * apply Forall_app. split; [exact Hne | now constructor].
      * intros _. apply last_last.
      * apply incl_app; [now apply incl_appl|].
        apply incl_appr, incl_refl.
      * rewrite !length_app. simpl. lia.
    + apply truthy_false_empty in T. subst d.
      unfold lookup_invariant. simpl.
      split; [exact Hne|]. split; [congruence|]. now split.
  - unfold respond. destruct (nth_error (inflight w) i);
      [|exact (conj Hne (conj Hlast (conj Hincl Hlen)))].
    rewrite lookup_chain_handled. unfold lookup_invariant. simpl.
    split; [exact Hne|]. split; [|split].
    + destruct p; exact Hlast.
    + intros x Hx. apply Hincl. now apply (remove_nth_incl i).
    + pose proof (remove_nth_length i (inflight w)). lia.
  - case_if; exact (conj Hne (conj Hlast (conj Hincl Hlen))).
  - case_if; exact (conj Hne (conj Hlast (conj Hincl Hlen))).
  - case_if; exact (conj Hne (conj Hlast (conj Hincl Hlen))).
Qed.

(** X4.  Along every run from the mounted component no lookup is issued
    for the empty name, the latest lookup issued is the one for the
    debounced name whenever that name is non-empty, and the outstanding
    lookups are among the issued ones and no more numerous. *)
Theorem issued_lookups_invariant (es : list Event) :
  lookup_invariant (run mounted es).
Proof.
  assert (G : forall w, lookup_invariant w -> lookup_invariant (run w es)).
  { unfold run. induction es as [|e es IH]; intros w Hw; simpl;
      [exact Hw | apply IH, lookup_invariant_step, Hw]. }
  apply G. unfold lookup_invariant. simpl.
  split; [constructor|]. split; [congruence|].
  split; [apply incl_refl | lia].
Qed.

(** X5.  Typing in the repository input is not validated by itself: it
    changes the repository cell only, so the display, the debounced name
    and the lookups stay as they are, while the snippet shows the typed
    name at once beside the id and the category stored before. *)
Theorem typing_is_not_validated (w : World) (v : string) (d : DirectConfig) :
  let w' := step w (Input v) in
  repository (config w') = v
  /\ validation (config w') = validation (config w)
  /\ dRepository (config w') = dRepository (config w)
  /\ issued w' = issued w
  /\ inflight w' = inflight w
  /\ In ("data-repo", Js.or_else v repoPlaceholder)
        (attributes (snippet (config w') d))
  /\ In ("data-repo-id",
         Js.or_else (repositoryId (config w)) repoIdPlaceholder)
        (attributes (snippet (config w') d))
  /\ In ("data-category-id",
         Js.or_else (categoryId (config w)) categoryIdPlaceholder)
        (attributes (snippet (config w') d)).
Proof.
  cbv zeta. rewrite !snippet_attributes. simpl.
  repeat (split; [first [reflexivity | auto 6]|]). auto 6.
Qed.

(** ** The mapping and the term *)

Lemma mapping_invariant_step (w : World) (e : Event) :
  mapping_invariant (config w) -> mapping_invariant (config (step w e)).
Proof.
  intros [Hin Hterm].
  destruct e as [v|d|i p|v|v|v]; simpl.
  - exact (conj Hin Hterm).
  - unfold settle.
    destruct (String.eqb d (dRepository (config w)));
      [exact (conj Hin Hterm)|].
    unfold run_effect. destruct (Js.truthy d); exact (conj Hin Hterm).
  - unfold respond. destruct (nth_error (inflight w) i);
      [|exact (conj Hin Hterm)].
    rewrite lookup_chain_handled. destruct p; exact (conj Hin Hterm).
  - case_if; exact (conj Hin Hterm).
  - destruct (includes_In mappingOptions v) as [Hv _].
    change (mapping_invariant
              (config (if Js.includes mappingOptions v
                       then with_config (onMappingChange v) w else w))).
    destruct (Js.includes mappingOptions v); [|exact (conj Hin Hterm)].
    split; [exact (Hv eq_refl) | reflexivity].
  - change (mapping_invariant
              (config (if Js.includes termMappings (mapping (config w))
                       then with_config (onTermChange v) w else w))).
    pose proof (conj Hin Hterm : mapping_invariant (config w)) as Hw.
    destruct (Js.includes termMappings (mapping (config w))) eqn:E;
      [|exact Hw].
    split; [exact Hin|].
    change (Js.includes termMappings (mapping (config w)) = false -> v = "").
    rewrite E. discriminate.
Qed.

Lemma mapping_invariant_run (es : list Event) :
  mapping_invariant (config (run mounted es)).
Proof.
  assert (G : forall w, mapping_invariant (config w) ->
                        mapping_invariant (config (run w es))).
  { unfold run. induction es as [|e es IH]; intros w Hw; simpl;
      [exact Hw | apply IH, mapping_invariant_step, Hw]. }
  apply G. split; simpl; [auto | reflexivity].
Qed.

(** X6.  Along every run from the mounted component the mapping is one
    of the six options, and the stored term is empty unless the mapping
    is specific or number; so the snippet's data-mapping is never
    empty. *)
Theorem term_empty_outside_term_mappings (es : list Event) :
  let c := config (run mounted es) in
  In (mapping c) mappingOptions
  /\ mapping c <> ""
  /\ (mapping c <> "specific" -> mapping c <> "number" -> term c = "")
  /\ (forall d, In ("data-mapping", mapping c) (attributes (snippet c d))).
Proof.
  destruct (mapping_invariant_run es) as [Hin Hterm].
  cbv zeta. split; [exact Hin|]. split; [|split].
  - intros E. rewrite E in Hin. simpl in Hin. intuition discriminate.
  - intros H1 H2. apply Hterm.
    destruct (Js.includes termMappings (mapping (config (run mounted es))))
      eqn:E; [|reflexivity].
    apply term_mapping_cases in E. tauto.
  - intros d. rewrite snippet_attributes. simpl. auto 6.
Qed.

(** X7.  Along every run from the mounted component exactly one mapping
    radio is checked, the one whose value is the mapping.  The term
    input is rendered once, under that radio, when the mapping is
    specific or number, and not at all otherwise; it holds the stored
    term and is a number input exactly under the number mapping. *)
Theorem one_radio_checked (es : list Event) :
  let c := config (run mounted es) in
  map radio_value (filter radio_checked (mappingRadios c)) = [mapping c]
  /\ termInputs c
     = (if termInputRendered c
        then [{| input_value := term c;
                 input_type := if String.eqb (mapping c) "number"
                               then "number" else "text";
                 input_placeholder :=
                   if String.eqb (mapping c) "number"
                   then "Enter discussion number here"
                   else "Enter term here" |}]
        else [])
  /\ map radio_value
         (filter (fun r => match radio_term r with
                           | Some _ => true
                           | None => false
                           end) (mappingRadios c))
     = (if termInputRendered c then [mapping c] else []).
Proof.
  destruct (mapping_invariant_run es) as [Hin _]. cbv zeta.
  unfold termInputs, termInputRendered, mappingRadios.
  simpl in Hin.
  destruct Hin as [H|[H|[H|[H|[H|[H|[]]]]]]]; rewrite <- H;
    repeat split; reflexivity.
Qed.

(** ** Serial runs *)

Lemma pending_invariant_step (w : World) (e : Event) :
  pending_invariant w ->
  (negb (issues_lookup w e) || negb (Js.nonempty (inflight w))) = true ->
  pending_invariant (step w e).
Proof.
  intros Hinv Hser.
  destruct e as [v|d|i p|v|v|v].
  - (* Input *)
    destruct Hinv as [H|H]; [now left | right; exact H].
  - (* Settled *)
    change (pending_invariant (settle d w)). unfold settle.
    simpl in Hser.
    destruct (String.eqb_spec d (dRepository (config w))) as [E|N];
      [exact Hinv|].
    unfold run_effect. destruct (Js.truthy d) eqn:T; simpl in Hser.
    + destruct (inflight w) as [|x xs] eqn:Ein; [|discriminate].
      right. simpl. rewrite Ein. simpl.
      repeat split; auto.
    + apply truthy_false_empty in T. subst d.
      destruct Hinv as [H|(Hlen & _)]; [now left|].
      right. simpl. repeat split; auto.
  - (* Response *)
    change (pending_invariant (respond i p w)). unfold respond.
    destruct (nth_error (inflight w) i) as [x|] eqn:E; [|exact Hinv].
    rewrite lookup_chain_handled. left. simpl.
    destruct Hinv as [H|(Hlen & _)]; [rewrite H in E; destruct i; discriminate|].
    destruct (inflight w) as [|y [|z ys]]; try discriminate.
    destruct i as [|i]; [reflexivity | destruct i; discriminate].
  - (* PickCategory *)
    change (pending_invariant
              (if categorySelectEnabled (config w)
                  && Js.includes (categoryOptions (config w)) v
               then with_config (onCategoryChange v) w else w)).
    destruct Hinv as [H|H]; [left; case_if; exact H|].
    destruct H as (Hlen & Hd & He & Hr & Hc & Hcats).
    unfold categorySelectEnabled. rewrite Hcats. simpl.
    right. repeat split; auto.
  - (* PickMapping *)
    change (pending_invariant
              (if Js.includes mappingOptions v
               then with_config (onMappingChange v) w else w)).
    case_if; [|exact Hinv].
    destruct Hinv as [H|H]; [now left | right; exact H].
  - (* TypeTerm *)
    change (pending_invariant
              (if termInputRendered (config w)
               then with_config (onTermChange v) w else w)).
    case_if; [|exact Hinv].
    destruct Hinv as [H|H]; [now left | right; exact H].
Qed.

Lemma pending_invariant_run (es : list Event) :
  serial mounted es = true -> pending_invariant (run mounted es).
Proof.
  assert (G : forall w, pending_invariant w -> serial w es = true ->
                        pending_invariant (run w es)).
  { unfold run. induction es as [|e es IH]; intros w Hw Hs; simpl;
      [exact Hw|].
    simpl in Hs. apply andb_prop in Hs as [Hnow Hrest].
    apply IH; [now apply pending_invariant_step | exact Hrest]. }
  intros Hs. apply G; [now left | exact Hs].
Qed.

(** X8.  On a run in which lookups do not overlap, while a lookup is
    outstanding the display is the spinner, or the neutral text when the
    name has been emptied since; the category select is disabled and
    offers only its placeholder, which reads No categories found; and the
    snippet shows the placeholders for the repository id and the
    category id. *)
Theorem outstanding_lookup_shows_reset_state (es : list Event) :
  serial mounted es = true ->
  inflight (run mounted es) <> [] ->
  let c := config (run mounted es) in
  validation c = (if Js.truthy (dRepository c) then Pending else Idle)
  /\ (dRepository c = "" \/ inflight (run mounted es) = [dRepository c])
  /\ select_disabled (categorySelect c) = true
  /\ map option_label (select_options (categorySelect c))
     = ["No categories found"]
  /\ (forall d,
         In ("data-repo-id", repoIdPlaceholder) (attributes (snippet c d))
         /\ In ("data-category-id", categoryIdPlaceholder)
               (attributes (snippet c d))).
Proof.
  intros Hs Hout. cbv zeta.
  destruct (pending_invariant_run es Hs)
    as [H|(Hlen & Hd & He & Hr & Hc & Hcats)]; [contradiction|].
  split; [|split; [exact Hd|split; [|split]]].
  - unfold validation. rewrite He, Hr, Hcats. simpl.
    destruct (Js.truthy _); reflexivity.
  - unfold categorySelect. simpl. now rewrite Hcats.
  - unfold categorySelect. simpl. now rewrite Hcats.
  - intros d. rewrite snippet_attributes, Hr, Hc. simpl. auto 6.
Qed.

Lemma outstanding_lookup_shows_reset_state_witness :
  let es := [Input "a/a"; Settled "a/a";
             Response 0 (Promise.Fulfilled resultA); PickCategory "A_1";
             Input "b/b"; Settled "b/b"] in
  let c := config (run mounted es) in
  inflight (run mounted es) = ["b/b"]
  /\ validation c = (if Js.truthy (dRepository c) then Pending else Idle)
  /\ (dRepository c = "" \/ inflight (run mounted es) = [dRepository c])
  /\ select_disabled (categorySelect c) = true
  /\ map option_label (select_options (categorySelect c))
     = ["No categories found"]
  /\ (forall d,
         In ("data-repo-id", repoIdPlaceholder) (attributes (snippet c d))
         /\ In ("data-category-id", categoryIdPlaceholder)
               (attributes (snippet c d))).
Proof.
  split; [reflexivity|].
  refine (outstanding_lookup_shows_reset_state
            [Input "a/a"; Settled "a/a";
             Response 0 (Promise.Fulfilled resultA); PickCategory "A_1";
             Input "b/b"; Settled "b/b"] eq_refl _).
  vm_compute. discriminate.
Defined.

(** X9.  On a run in which lookups do not overlap, a fulfilment that
    brings a non-empty id and at least one category always gives the
    success display with that id and that list; no lookup is left
    outstanding, no category is selected yet, and the select is enabled
    and offers the placeholder, selected, followed by the categories in
    the order received. *)
Theorem serial_fulfilment_shows_success
        (es : list Event) (r : CategoriesResult) :
  serial mounted es = true ->
  inflight (run mounted es) <> [] ->
  res_repositoryId r <> "" ->
  res_categories r <> [] ->
  let w' := step (run mounted es) (Response 0 (Promise.Fulfilled r)) in
  validation (config w')
  = Success (res_repositoryId r) (res_categories r)
  /\ inflight w' = []
  /\ categoryId (config w') = ""
  /\ select_disabled (categorySelect (config w')) = false
  /\ map option_value (select_options (categorySelect (config w')))
     = "" :: map id (res_categories r)
  /\ map option_selected (select_options (categorySelect (config w')))
     = true :: map (fun _ => false) (res_categories r).
Proof.
  intros Hs Hout Hrid Hcats.
  destruct (pending_invariant_run es Hs)
    as [H|(Hlen & Hd & He & Hr & Hc & Hcs)]; [contradiction|].
  destruct (inflight (run mounted es)) as [|x [|y ys]] eqn:Ein;
    try discriminate.
  assert (Hi : nth_error (inflight (run mounted es)) 0 = Some x)
    by now rewrite Ein.
  cbv zeta. change (step (run mounted es) (Response 0 (Promise.Fulfilled r)))
    with (respond 0 (Promise.Fulfilled r) (run mounted es)).
  rewrite (respond_outstanding _ _ _ _ Hi), Ein.
  apply truthy_true in Hrid.
  unfold validation, categorySelect. simpl. rewrite He, Hrid, Hc.
  destruct (res_categories r) as [|c0 cs] eqn:Er; [congruence|].
  simpl. rewrite !map_map. repeat split.
Qed.

Lemma serial_fulfilment_shows_success_witness :
  let w' := step (run mounted [Input "a/a"; Settled "a/a"])
                 (Response 0 (Promise.Fulfilled resultA)) in
  validation (config w') = Success "R_A" [catGeneral]
  /\ inflight w' = []
  /\ categoryId (config w') = ""
  /\ select_disabled (categorySelect (config w')) = false
  /\ map option_value (select_options (categorySelect (config w')))
     = [""; "A_1"]
  /\ map option_selected (select_options (categorySelect (config w')))
     = [true; false].
Proof.
  apply (serial_fulfilment_shows_success
           [Input "a/a"; Settled "a/a"] resultA);
    [reflexivity | discriminate | discriminate | discriminate].
Defined.

(** ** The snippet as text *)

Lemma append_assoc (a b c : string) : (a ++ b) ++ c = a ++ (b ++ c).
Proof. induction a as [|x a IH]; simpl; [reflexivity | now rewrite IH]. Qed.

Lemma text_content_app (xs ys : list Node) :
  text_content (xs ++ ys) = text_content xs ++ text_content ys.
Proof.
  induction xs as [|x xs IH]; simpl; [reflexivity|].
  now rewrite IH, append_assoc.
Qed.

Lemma append_empty_r (a : string) : a ++ "" = a.
Proof. induction a as [|x a IH]; simpl; [reflexivity | now rewrite IH]. Qed.

Lemma text_content_attribute (n v : string) :
  text_content (attribute n v) = attribute_text (n, v).
Proof.
  unfold attribute, attribute_text, text_content.
  cbn [fold_right node_text fst snd]. now rewrite append_empty_r.
Qed.

(** X10.  The text of the block, which is what the copy button takes, is
    the script tag laid out from the attributes read off the block, in
    their order: each as name, equals sign, the value between double
    quotes and a line break, then the async marker and the closing
    tag.  The values are written as they are, without escaping. *)
Theorem snippet_text_from_attributes (c : Config) (d : DirectConfig) :
  text_content (snippet c d) = script_text (attributes (snippet c d)).
Proof.
  rewrite snippet_attributes. unfold snippet, script_text.
  rewrite !text_content_app, !text_content_attribute.
  destruct (Js.includes termMappings (mapping c));
    rewrite ?text_content_attribute; cbn [app fold_right];
    rewrite ?append_assoc; reflexivity.
Qed.

(** X11.  The two direct settings reach the snippet through their own
    attribute only: data-reactions-enabled is 1 when reactions are
    enabled and 0 when not, data-theme is the theme as given, and every
    other attribute is the same under any direct settings. *)
Theorem direct_config_attributes (c : Config) (d : DirectConfig) :
  (forall v, In ("data-reactions-enabled", v) (attributes (snippet c d))
             <-> v = (if reactionsEnabled d then "1" else "0"))
  /\ (forall v, In ("data-theme", v) (attributes (snippet c d))
                <-> v = theme d)
  /\ (forall d' n v,
         n <> "data-reactions-enabled" -> n <> "data-theme" ->
         In (n, v) (attributes (snippet c d)) ->
         In (n, v) (attributes (snippet c d'))).
Proof.
  rewrite snippet_attributes. split; [|split].
  - intros v.
    destruct (Js.includes termMappings (mapping c)), (reactionsEnabled d);
      simpl; split; intros H;
      try (subst v; auto 10);
      repeat (destruct H as [H|H]; [congruence|]); contradiction.
  - intros v.
    destruct (Js.includes termMappings (mapping c)); simpl; split; intros H;
      try (subst v; auto 10);
      repeat (destruct H as [H|H]; [congruence|]); contradiction.
  - intros d' n v H1 H2. rewrite snippet_attributes.
    destruct (Js.includes termMappings (mapping c)); simpl; intros H;
      repeat (destruct H as [H|H];
              [first [ injection H as <- <-; first [congruence | auto 10]
                     | congruence ]|]);
      contradiction.
Qed.

(** ** The error flag *)

(** X12.  Only the effect clears the error flag.  Once the flag is set,
    every event other than a change of the debounced name leaves it set
    and the display on the error: typing, picking a category or a
    mapping, and the arrival of any response, a fulfilment included. *)
Theorem error_persists_until_settled (w : World) (e : Event) :
  error (config w) = true ->
  (error (config (step w e)) = true
   /\ validation (config (step w e)) = Error)
  \/ (exists d, e = Settled d /\ d <> dRepository (config w)
                /\ error (config (step w e)) = false).
Proof.
  intros He.
  assert (V : forall c, error c = true -> validation c = Error).
  { intros c Hc. unfold validation. now rewrite Hc. }
  destruct e as [v|d|i p|v|v|v].
  - left. split; [exact He | now apply V].
  - change (step w (Settled d)) with (settle d w). unfold settle.
    destruct (String.eqb_spec d (dRepository (config w))) as [E|N].
    + left. split; [exact He | now apply V].
    + right. exists d. split; [reflexivity|]. split; [exact N|].
      unfold run_effect. destruct (Js.truthy d); reflexivity.
  - left. change (step w (Response i p)) with (respond i p w).
    unfold respond. destruct (nth_error (inflight w) i);
      [|split; [exact He | now apply V]].
    rewrite lookup_chain_handled.
    assert (E : error (match p with
                       | Promise.Fulfilled r => onFulfilled r
                       | Promise.Rejected reason => onRejected reason
                       end (config w)) = true)
      by (destruct p; [exact He | reflexivity]).
    split; [exact E | now apply V].
  - left. change (step w (PickCategory v))
      with (if categorySelectEnabled (config w)
               && Js.includes (categoryOptions (config w)) v
            then with_config (onCategoryChange v) w else w).
    case_if; (split; [exact He | now apply V]).
  - left. change (step w (PickMapping v))
      with (if Js.includes mappingOptions v
            then with_config (onMappingChange v) w else w).
    case_if; (split; [exact He | now apply V]).
  - left. change (step w (TypeTerm v))
      with (if termInputRendered (config w)
            then with_config (onTermChange v) w else w).
    case_if; (split; [exact He | now apply V]).
Qed.

Lemma error_persists_until_settled_witness :
  let w := run mounted [Input "a/a"; Settled "a/a";
                        Response 0 (Promise.Rejected "not found")] in
  error (config w) = true
  /\ ((error (config (step w (Input "a/b"))) = true
       /\ validation (config (step w (Input "a/b"))) = Error)
      \/ (exists d, Input "a/b" = Settled d /\ d <> dRepository (config w)
                    /\ error (config (step w (Input "a/b"))) = false)).
Proof.
  split; [reflexivity|].
  exact (error_persists_until_settled
           (run mounted [Input "a/a"; Settled "a/a";
                         Response 0 (Promise.Rejected "not found")])
           (Input "a/b") eq_refl).
Defined.
